(** * Type-safe key-value pair parsers of editorconfig-core-rs (src/property.rs)

    Shallow embedding of the [Property] trait, of the four macros that stamp
    out its instances, and of the Rust standard-library primitives they call
    ([<usize as FromStr>::from_str] and [<bool as FromStr>::from_str]).
    A Rust [&str] is modelled as a [string] (its UTF-8 bytes): both the
    literal [match] of [property_enum] and [from_str_radix] work on bytes. *)

From Stdlib Require Import ZArith String Ascii Bool List Lia.
Import ListNotations.
Open Scope string_scope.
Open Scope Z_scope.

(** ** Rust [Result] and [Result::ok] *)

Inductive result (T E : Type) : Type :=
| Ok : T -> result T E
| Err : E -> result T E.
Arguments Ok {T E} _.
Arguments Err {T E} _.

Definition ok {T E} (r : result T E) : option T :=
  match r with Ok v => Some v | Err _ => None end.

(** ** [core::num::from_str_radix] for an unsigned integer type, radix 10 *)

(** [core::num::IntErrorKind] (the kinds [from_str_radix] can return for an
    unsigned type). *)
Inductive IntErrorKind : Type := Empty | InvalidDigit | PosOverflow.

(** [usize] is 64 bits wide on the targets considered here. *)
Definition usize_bits : nat := 64.
Definition usize_MAX : Z := 2 ^ Z.of_nat usize_bits - 1.

(** [(c as char).to_digit(10)] on one byte. *)
Definition to_digit10 (c : ascii) : option Z :=
  let n := nat_of_ascii c in
  if (48 <=? n)%nat && (n <=? 57)%nat then Some (Z.of_nat (n - 48)) else None.

(** [checked_mul] and [checked_add] of an unsigned type whose maximum is [max]. *)
Definition checked_mul (max a b : Z) : option Z :=
  if a * b <=? max then Some (a * b) else None.
Definition checked_add (max a b : Z) : option Z :=
  if a + b <=? max then Some (a + b) else None.

(** The positive branch of the digit loop ([acc] is the Rust [result]):
    {[
      for &c in digits {
          let x = match (c as char).to_digit(radix) { Some(x) => x, None => return Err(InvalidDigit) };
          result = match result.checked_mul(radix) { Some(r) => r, None => return Err(PosOverflow) };
          result = match result.checked_add(x) { Some(r) => r, None => return Err(PosOverflow) };
      }
      Ok(result)
    ]} *)
Fixpoint digits_loop (max acc : Z) (digits : string) : result Z IntErrorKind :=
  match digits with
  | EmptyString => Ok acc
  | String c rest =>
      match to_digit10 c with
      | None => Err InvalidDigit
      | Some x =>
          match checked_mul max acc 10 with
          | None => Err PosOverflow
          | Some r =>
              match checked_add max r x with
              | None => Err PosOverflow
              | Some r' => digits_loop max r' rest
              end
          end
      end
  end.

(** [from_str_radix(src, 10)] for an unsigned type with maximum [max]:
    {[
      if src.is_empty() { return Err(Empty) }
      let (is_positive, digits) = match src[0] {
          b'+' | b'-' if src[1..].is_empty() => return Err(InvalidDigit),
          b'+' => (true, &src[1..]),
          b'-' if is_signed_ty => (false, &src[1..]),
          _ => (true, src),
      };
    ]}
    The type is unsigned, so the [b'-'] arm never fires and [is_positive]
    is always [true]. *)
Definition from_str_radix_unsigned (max : Z) (src : string) : result Z IntErrorKind :=
  match src with
  | EmptyString => Err Empty
  | String c rest =>
      if (Ascii.eqb c "+"%char || Ascii.eqb c "-"%char) && String.eqb rest "" then Err InvalidDigit
      else if Ascii.eqb c "+"%char then digits_loop max 0 rest
      else digits_loop max 0 src
  end.

(** [raw.parse::<usize>()]. *)
Definition usize_from_str (raw : string) : result Z IntErrorKind :=
  from_str_radix_unsigned usize_MAX raw.

(** [core::str::ParseBoolError] and [<bool as FromStr>::from_str]. *)
Inductive ParseBoolError : Type := ParseBoolError_mk.

Definition bool_from_str (s : string) : result bool ParseBoolError :=
  if String.eqb s "true" then Ok true
  else if String.eqb s "false" then Ok false
  else Err ParseBoolError_mk.

(** ** The [Property] trait *)

Class Property (P : Type) : Type := {
  Value : Type;
  key : string;
  parse_value : string -> option Value
}.
Arguments Value P {_}.
Arguments key P {_}.
Arguments parse_value P {_} _.

(** ** The macros *)

(** [property_basic!]: [raw.parse::<T>().ok()]. *)
Definition property_basic {T E} (from_str : string -> result T E) (raw : string) : option T :=
  ok (from_str raw).

(** [property_basic_option!]:
    [if raw == $disable { Some(None) } else { raw.parse::<T>().ok().map(Some) }]. *)
Definition property_basic_option {T E} (from_str : string -> result T E) (disable : string)
    (raw : string) : option (option T) :=
  if String.eqb raw disable then Some None
  else option_map Some (ok (from_str raw)).

(** [property_enum!]: [match raw { $($string => Some($variant)),+, _ => None }];
    the arms are tried in order. *)
Fixpoint property_enum {A} (arms : list (string * A)) (raw : string) : option A :=
  match arms with
  | [] => None
  | (lit, v) :: rest => if String.eqb raw lit then Some v else property_enum rest raw
  end.

(** ** The property catalog *)

Inductive IndentStyle : Type := Tabs | Spaces.
Definition IndentStyle_arms : list (string * IndentStyle) :=
  [("tab", Tabs); ("space", Spaces)].
#[export] Instance IndentStyle_Property : Property IndentStyle := {
  Value := IndentStyle;
  key := "indent_style";
  parse_value := property_enum IndentStyle_arms
}.

Inductive IndentSize : Type := IndentSize_mk.
#[export] Instance IndentSize_Property : Property IndentSize := {
  Value := option Z;
  key := "indent_size";
  parse_value := property_basic_option usize_from_str "tab"
}.

Inductive TabWidth : Type := TabWidth_mk.
#[export] Instance TabWidth_Property : Property TabWidth := {
  Value := Z;
  key := "tab_width";
  parse_value := property_basic usize_from_str
}.

Inductive EndOfLine : Type := Lf | CrLf | Cr.
Definition EndOfLine_arms : list (string * EndOfLine) :=
  [("lf", Lf); ("crlf", CrLf); ("cr", Cr)].
#[export] Instance EndOfLine_Property : Property EndOfLine := {
  Value := EndOfLine;
  key := "end_of_line";
  parse_value := property_enum EndOfLine_arms
}.

Inductive Charset : Type := Utf8 | Latin1 | Utf16Le | Utf16Be | Utf8Bom.
Definition Charset_arms : list (string * Charset) :=
  [("utf-8", Utf8); ("latin1", Latin1); ("utf-16le", Utf16Le);
   ("utf-16be", Utf16Be); ("utf-8-bom", Utf8Bom)].
#[export] Instance Charset_Property : Property Charset := {
  Value := Charset;
  key := "charset";
  parse_value := property_enum Charset_arms
}.

Inductive TrimTrailingWs : Type := TrimTrailingWs_mk.
#[export] Instance TrimTrailingWs_Property : Property TrimTrailingWs := {
  Value := bool;
  key := "trim_trailing_whitespace";
  parse_value := property_basic bool_from_str
}.

Inductive FinalNewline : Type := FinalNewline_mk.
#[export] Instance FinalNewline_Property : Property FinalNewline := {
  Value := bool;
  key := "insert_final_newline";
  parse_value := property_basic bool_from_str
}.

Inductive MaxLineLen : Type := MaxLineLen_mk.
#[export] Instance MaxLineLen_Property : Property MaxLineLen := {
  Value := option Z;
  key := "max_line_length";
  parse_value := property_basic_option usize_from_str "off"
}.

(** ** Reading aids for the statements

    The decimal grammar accepted by [usize_from_str], written independently
    of the digit loop: the value of a digit string, read left to right. *)

Fixpoint all_digits (s : string) : bool :=
  match s with
  | EmptyString => true
  | String c r => match to_digit10 c with Some _ => all_digits r | None => false end
  end.

Fixpoint decimal_value_from (acc : Z) (s : string) : Z :=
  match s with
  | EmptyString => acc
  | String c r =>
      decimal_value_from (acc * 10 + match to_digit10 c with Some d => d | None => 0 end) r
  end.

Definition decimal_value (s : string) : Z := decimal_value_from 0 s.

(** [s] is an optional single ['+'] followed by a non-empty run of ASCII
    digits (leading zeros allowed) whose value [n] fits in [0 ..= max]. *)
Definition unsigned_grammar (max : Z) (s : string) (n : Z) : Prop :=
  exists ds, (s = ds \/ s = String "+"%char ds) /\ ds <> "" /\
    all_digits ds = true /\ n = decimal_value ds /\ n <= max.

Definition usize_grammar (s : string) (n : Z) : Prop := unsigned_grammar usize_MAX s n.

(** Every byte of a key is a lowercase ASCII letter or ['_']. *)
Fixpoint lower_snake (s : string) : bool :=
  match s with
  | EmptyString => true
  | String c r =>
      let n := nat_of_ascii c in
      ((97 <=? n)%nat && (n <=? 122)%nat || (n =? 95)%nat) && lower_snake r
  end.

(** Decimal rendering of a non-negative integer (the text of
    [n.to_string()]): digits are emitted least significant first in front of
    [acc]; [fuel] bounds the number of divisions by 10. *)
Fixpoint decimal_string_fuel (fuel : nat) (n : Z) (acc : string) : string :=
  match fuel with
  | O => acc
  | S f =>
      let acc' := String (ascii_of_nat (48 + Z.to_nat (n mod 10))) acc in
      if n <? 10 then acc' else decimal_string_fuel f (n / 10) acc'
  end.

Definition decimal_string (n : Z) : string :=
  decimal_string_fuel (S (Z.to_nat (Z.log2 n))) n "".

(** ** Properties of the primitives *)

Lemma to_digit10_range (c : ascii) (x : Z) :
  to_digit10 c = Some x -> 0 <= x <= 9.
Proof.
  unfold to_digit10.
  destruct ((48 <=? nat_of_ascii c)%nat && (nat_of_ascii c <=? 57)%nat) eqn:E;
    [|discriminate].
  apply andb_true_iff in E as [E1 E2].
  apply Nat.leb_le in E1; apply Nat.leb_le in E2.
  intros H; injection H as <-; lia.
Qed.

Lemma decimal_value_from_ge (s : string) :
  forall acc, 0 <= acc -> acc <= decimal_value_from acc s.
Proof.
  induction s as [|c r IH]; intros acc Hacc; simpl; [lia|].
  assert (0 <= match to_digit10 c with Some d => d | None => 0 end).
  { destruct (to_digit10 c) eqn:E; [apply to_digit10_range in E|]; lia. }
  specialize (IH (acc * 10 + match to_digit10 c with Some d => d | None => 0 end)).
  lia.
Qed.

(** The digit loop computes the decimal value of its input, and fails exactly
    when a byte is not a digit or the value exceeds [max]. *)
Lemma digits_loop_spec (max : Z) (s : string) :
  forall acc n, 0 <= acc <= max ->
  digits_loop max acc s = Ok n <->
  all_digits s = true /\ n = decimal_value_from acc s /\ n <= max.
Proof.
  induction s as [|c r IH]; intros acc n Hacc; simpl.
  - split; [intros H; injection H as <-; lia|].
    intros (_ & -> & _); reflexivity.
  - destruct (to_digit10 c) as [x|] eqn:Ex.
    2: { split; [discriminate|]. intros (H & _); discriminate H. }
    apply to_digit10_range in Ex.
    unfold checked_mul, checked_add.
    destruct (acc * 10 <=? max) eqn:Em.
    + apply Z.leb_le in Em.
      destruct (acc * 10 + x <=? max) eqn:Ea.
      * apply Z.leb_le in Ea. apply IH. lia.
      * apply Z.leb_gt in Ea. split; [discriminate|].
        intros (_ & -> & Hle).
        pose proof (decimal_value_from_ge r (acc * 10 + x)). lia.
    + apply Z.leb_gt in Em. split; [discriminate|].
      intros (_ & -> & Hle).
      pose proof (decimal_value_from_ge r (acc * 10 + x)). lia.
Qed.

Lemma all_digits_head (c : ascii) (r : string) :
  all_digits (String c r) = true -> to_digit10 c <> None.
Proof. simpl. destruct (to_digit10 c); congruence. Qed.

Lemma to_digit10_plus : to_digit10 "+"%char = None.
Proof. reflexivity. Qed.

Lemma to_digit10_minus : to_digit10 "-"%char = None.
Proof. reflexivity. Qed.

(** [from_str_radix] on an unsigned type accepts exactly [unsigned_grammar]. *)
Lemma from_str_radix_unsigned_spec (max : Z) (s : string) (n : Z) :
  0 <= max ->
  ok (from_str_radix_unsigned max s) = Some n <-> unsigned_grammar max s n.
Proof.
  intros Hmax. unfold unsigned_grammar, from_str_radix_unsigned.
  destruct s as [|c r]; cbv beta iota.
  - split; [discriminate|].
    intros (ds & [Hs|Hs] & Hne & _); [subst; congruence | discriminate].
  - destruct (Ascii.eqb_spec c "+"%char) as [->|Hp];
      [|destruct (Ascii.eqb_spec c "-"%char) as [->|Hm]]; cbn [orb andb].
    + destruct (String.eqb_spec r "") as [->|Hr]; simpl.
      * split; [discriminate|].
        intros (ds & [Hs|Hs] & Hne & Hd & _).
        -- subst ds. discriminate Hd.
        -- injection Hs as <-. congruence.
      * split.
        -- destruct (digits_loop max 0 r) eqn:E; simpl; [|discriminate].
           intros H; injection H as <-.
           apply digits_loop_spec in E; [|lia].
           exists r. unfold decimal_value. tauto.
        -- intros (ds & [Hs|Hs] & Hne & Hd & Hn & Hle).
           ++ subst ds. discriminate Hd.
           ++ injection Hs as <-.
              assert (digits_loop max 0 r = Ok n) as ->; [|reflexivity].
              apply digits_loop_spec; [lia|]. tauto.
    + destruct (String.eqb_spec r "") as [->|Hr]; simpl.
      * split; [discriminate|].
        intros (ds & [Hs|Hs] & Hne & Hd & _).
        -- subst ds. discriminate Hd.
        -- discriminate Hs.
      * split; [discriminate|].
        intros (ds & [Hs|Hs] & Hne & Hd & _).
        -- subst ds. discriminate Hd.
        -- discriminate Hs.
    + split.
      * destruct (digits_loop max 0 (String c r)) eqn:E; [|discriminate].
        intros H; injection H as <-.
        apply digits_loop_spec in E; [|lia].
        exists (String c r). unfold decimal_value.
        split; [left; reflexivity|]. split; [discriminate|]. tauto.
      * intros (ds & [Hs|Hs] & Hne & Hd & Hn & Hle).
        -- subst ds.
           assert (digits_loop max 0 (String c r) = Ok n) as ->; [|reflexivity].
           apply digits_loop_spec; [lia|]. tauto.
        -- injection Hs as Hc _. congruence.
Qed.

Lemma usize_MAX_nonneg : 0 <= usize_MAX.
Proof. unfold usize_MAX. simpl. lia. Qed.

Lemma usize_from_str_spec (s : string) (n : Z) :
  ok (usize_from_str s) = Some n <-> usize_grammar s n.
Proof. apply from_str_radix_unsigned_spec, usize_MAX_nonneg. Qed.

(** [property_enum] with pairwise distinct literals returns exactly the
    alternative paired with the raw string. *)
Lemma property_enum_Some {A} (arms : list (string * A)) (raw : string) (v : A) :
  NoDup (map fst arms) ->
  property_enum arms raw = Some v <-> In (raw, v) arms.
Proof.
  induction arms as [|[lit w] rest IH]; simpl; intros Hnd; [split; [discriminate|tauto]|].
  inversion Hnd as [|? ? Hnotin Hnd']; subst.
  destruct (String.eqb_spec raw lit) as [->|Hne].
  - split.
    + intros H; injection H as ->; left; reflexivity.
    + intros [H|H]; [injection H as ->; reflexivity|].
      exfalso; apply Hnotin, (in_map fst rest (lit, v)), H.
  - rewrite IH by exact Hnd'. split; [tauto|].
    intros [H|H]; [injection H as -> _; congruence|exact H].
Qed.

Ltac distinct_strings := repeat constructor; simpl; intuition discriminate.

Lemma IndentStyle_arms_nodup : NoDup (map fst IndentStyle_arms).
Proof. distinct_strings. Qed.
Lemma EndOfLine_arms_nodup : NoDup (map fst EndOfLine_arms).
Proof. distinct_strings. Qed.
Lemma Charset_arms_nodup : NoDup (map fst Charset_arms).
Proof. distinct_strings. Qed.

(** [property_basic_option] in the order of the source: the sentinel first,
    then the primitive parse. *)
Lemma property_basic_option_none_iff {T E} (f : string -> result T E) (d raw : string) :
  property_basic_option f d raw = Some None <-> raw = d.
Proof.
  unfold property_basic_option.
  destruct (String.eqb_spec raw d); [tauto|].
  destruct (ok (f raw)); simpl; split; congruence.
Qed.

Lemma property_basic_option_some_iff {T E} (f : string -> result T E) (d raw : string) (n : T) :
  property_basic_option f d raw = Some (Some n) <-> raw <> d /\ ok (f raw) = Some n.
Proof.
  unfold property_basic_option.
  destruct (String.eqb_spec raw d); [split; [discriminate|tauto]|].
  destruct (ok (f raw)); simpl; split; intuition congruence.
Qed.

Lemma property_basic_option_fail_iff {T E} (f : string -> result T E) (d raw : string) :
  property_basic_option f d raw = None <-> raw <> d /\ ok (f raw) = None.
Proof.
  unfold property_basic_option.
  destruct (String.eqb_spec raw d); [split; [discriminate|tauto]|].
  destruct (ok (f raw)); simpl; split; intuition congruence.
Qed.

Lemma bool_parse_some (raw : string) (b : bool) :
  property_basic bool_from_str raw = Some b <->
  (raw = "true" /\ b = true \/ raw = "false" /\ b = false).
Proof.
  unfold property_basic, bool_from_str.
  destruct (String.eqb_spec raw "true") as [->|H1];
    [|destruct (String.eqb_spec raw "false") as [->|H2]]; simpl.
  - split; [intros H; injection H as <-; tauto|]. intros [[_ ->]|[H _]]; [reflexivity|discriminate].
  - split; [intros H; injection H as <-; tauto|]. intros [[H _]|[_ ->]]; [discriminate|reflexivity].
  - split; [discriminate|tauto].
Qed.

Lemma bool_parse_none (raw : string) :
  property_basic bool_from_str raw = None <-> raw <> "true" /\ raw <> "false".
Proof.
  unfold property_basic, bool_from_str.
  destruct (String.eqb_spec raw "true") as [->|H1];
    [|destruct (String.eqb_spec raw "false") as [->|H2]]; simpl.
  - split; [discriminate|]. intros [H _]; congruence.
  - split; [discriminate|]. intros [_ H]; congruence.
  - tauto.
Qed.

(** Unfolding equations of the eight instances. *)
Lemma IndentStyle_parse_value_eq s : parse_value IndentStyle s = property_enum IndentStyle_arms s.
Proof. reflexivity. Qed.
Lemma EndOfLine_parse_value_eq s : parse_value EndOfLine s = property_enum EndOfLine_arms s.
Proof. reflexivity. Qed.
Lemma Charset_parse_value_eq s : parse_value Charset s = property_enum Charset_arms s.
Proof. reflexivity. Qed.
Lemma IndentSize_parse_value_eq s :
  parse_value IndentSize s = property_basic_option usize_from_str "tab" s.
Proof. reflexivity. Qed.
Lemma MaxLineLen_parse_value_eq s :
  parse_value MaxLineLen s = property_basic_option usize_from_str "off" s.
Proof. reflexivity. Qed.
Lemma TabWidth_parse_value_eq s : parse_value TabWidth s = property_basic usize_from_str s.
Proof. reflexivity. Qed.
Lemma TrimTrailingWs_parse_value_eq s :
  parse_value TrimTrailingWs s = property_basic bool_from_str s.
Proof. reflexivity. Qed.
Lemma FinalNewline_parse_value_eq s :
  parse_value FinalNewline s = property_basic bool_from_str s.
Proof. reflexivity. Qed.

Lemma property_enum_None {A} (arms : list (string * A)) (raw : string) :
  property_enum arms raw = None <-> ~ In raw (map fst arms).
Proof.
  induction arms as [|[lit w] rest IH]; simpl; [tauto|].
  destruct (String.eqb_spec raw lit) as [->|Hne].
  - split; [discriminate|tauto].
  - rewrite IH. intuition congruence.
Qed.

Lemma usize_grammar_digits (ds : string) (n : Z) :
  all_digits ds = true -> usize_grammar ds n -> n = decimal_value ds /\ n <= usize_MAX.
Proof.
  intros Hd (ds' & [ <- | -> ] & _ & _ & Hn & Hle); [tauto|].
  discriminate Hd.
Qed.

Lemma usize_from_str_overflow (ds : string) :
  all_digits ds = true -> usize_MAX < decimal_value ds -> ok (usize_from_str ds) = None.
Proof.
  intros Hd Hlt.
  destruct (ok (usize_from_str ds)) as [n|] eqn:E; [|reflexivity].
  apply usize_from_str_spec, usize_grammar_digits in E; [lia|exact Hd].
Qed.

Lemma usize_grammar_not_tab (n : Z) : ~ usize_grammar "tab" n.
Proof. rewrite <- usize_from_str_spec. discriminate. Qed.

Lemma usize_grammar_not_off (n : Z) : ~ usize_grammar "off" n.
Proof. rewrite <- usize_from_str_spec. discriminate. Qed.

(** ** The claims *)

(** C1: each enum property returns exactly the alternative paired with the
    raw string in its literal table and fails on every other string; the
    match is exact and case-sensitive ("Tab" and "lfs" fail). *)
Theorem enum_parse_value_exact :
  (forall s v, parse_value IndentStyle s = Some v <->
     (s = "tab" /\ v = Tabs \/ s = "space" /\ v = Spaces)) /\
  (forall s v, parse_value EndOfLine s = Some v <->
     (s = "lf" /\ v = Lf \/ s = "crlf" /\ v = CrLf \/ s = "cr" /\ v = Cr)) /\
  (forall s v, parse_value Charset s = Some v <->
     (s = "utf-8" /\ v = Utf8 \/ s = "latin1" /\ v = Latin1 \/
      s = "utf-16le" /\ v = Utf16Le \/ s = "utf-16be" /\ v = Utf16Be \/
      s = "utf-8-bom" /\ v = Utf8Bom)) /\
  parse_value IndentStyle "Tab" = None /\ parse_value EndOfLine "lfs" = None.
Proof.
  split; [|split; [|split; [|split; reflexivity]]]; intros s v;
    [rewrite IndentStyle_parse_value_eq, (property_enum_Some _ _ _ IndentStyle_arms_nodup)
    |rewrite EndOfLine_parse_value_eq, (property_enum_Some _ _ _ EndOfLine_arms_nodup)
    |rewrite Charset_parse_value_eq, (property_enum_Some _ _ _ Charset_arms_nodup)];
    simpl; intuition congruence.
Qed.

(** C2: IndentSize and MaxLineLength first compare with their sentinel
    ("tab", "off"), which gives explicit absence; any other string that
    parses as a usize n gives presence of n; any other string fails; the
    comparison is case-sensitive ("Off" fails). *)
Theorem optional_scalar_parse_value :
  (forall s, parse_value IndentSize s = Some None <-> s = "tab") /\
  (forall s n, parse_value IndentSize s = Some (Some n) <->
     s <> "tab" /\ ok (usize_from_str s) = Some n) /\
  (forall s, parse_value IndentSize s = None <->
     s <> "tab" /\ ok (usize_from_str s) = None) /\
  (forall s, parse_value MaxLineLen s = Some None <-> s = "off") /\
  (forall s n, parse_value MaxLineLen s = Some (Some n) <->
     s <> "off" /\ ok (usize_from_str s) = Some n) /\
  (forall s, parse_value MaxLineLen s = None <->
     s <> "off" /\ ok (usize_from_str s) = None) /\
  parse_value MaxLineLen "80" = Some (Some 80) /\
  parse_value MaxLineLen "Off" = None.
Proof.
  refine (conj _ (conj _ (conj _ (conj _ (conj _ (conj _ (conj eq_refl eq_refl)))))));
    intros; rewrite ?IndentSize_parse_value_eq, ?MaxLineLen_parse_value_eq;
    first [ apply property_basic_option_none_iff
          | apply property_basic_option_some_iff
          | apply property_basic_option_fail_iff ].
Qed.

(** C3 (as stated: refuted): a leading '+' and leading zeros are accepted by
    the integer parse of TabWidth and of IndentSize's integer branch. *)
Lemma usize_parse_not_canonical :
  parse_value TabWidth "+4" = Some 4 /\ parse_value TabWidth "007" = Some 7 /\
  parse_value IndentSize "+2" = Some (Some 2) /\ parse_value MaxLineLen "080" = Some (Some 80).
Proof. repeat split; reflexivity. Qed.

(** C3 (amended): TabWidth, and the integer branch of IndentSize and
    MaxLineLength, succeed exactly on an optional single '+' followed by a
    non-empty run of ASCII digits (leading zeros allowed) whose decimal value
    is at most usize::MAX, and return that value. *)
Theorem usize_properties_parse_grammar :
  (forall s n, parse_value TabWidth s = Some n <-> usize_grammar s n) /\
  (forall s n, parse_value IndentSize s = Some (Some n) <-> usize_grammar s n) /\
  (forall s n, parse_value MaxLineLen s = Some (Some n) <-> usize_grammar s n).
Proof.
  split; [|split]; intros s n.
  - rewrite TabWidth_parse_value_eq. apply usize_from_str_spec.
  - rewrite IndentSize_parse_value_eq.
    etransitivity; [apply property_basic_option_some_iff|]. rewrite usize_from_str_spec.
    split; [tauto|]. intros H; split; [|exact H].
    intros ->; exact (usize_grammar_not_tab n H).
  - rewrite MaxLineLen_parse_value_eq.
    etransitivity; [apply property_basic_option_some_iff|]. rewrite usize_from_str_spec.
    split; [tauto|]. intros H; split; [|exact H].
    intros ->; exact (usize_grammar_not_off n H).
Qed.

(** C4: IndentSize accepts "0" as explicit presence of 0. *)
Theorem IndentSize_zero : parse_value IndentSize "0" = Some (Some 0).
Proof. reflexivity. Qed.

(** C5: TrimTrailingWhitespace and FinalNewline return true exactly on
    "true", false exactly on "false", and fail on every other string
    (e.g. "True"). *)
Theorem bool_properties_parse_value :
  (forall s b, parse_value TrimTrailingWs s = Some b <->
     (s = "true" /\ b = true \/ s = "false" /\ b = false)) /\
  (forall s, parse_value TrimTrailingWs s = None <-> s <> "true" /\ s <> "false") /\
  (forall s b, parse_value FinalNewline s = Some b <->
     (s = "true" /\ b = true \/ s = "false" /\ b = false)) /\
  (forall s, parse_value FinalNewline s = None <-> s <> "true" /\ s <> "false") /\
  parse_value TrimTrailingWs "True" = None /\ parse_value FinalNewline "True" = None.
Proof.
  refine (conj _ (conj _ (conj _ (conj _ (conj eq_refl eq_refl))))); intros;
    rewrite ?TrimTrailingWs_parse_value_eq, ?FinalNewline_parse_value_eq;
    first [apply bool_parse_some | apply bool_parse_none].
Qed.

(** C6: TabWidth on "4" and "0" gives 4 and 0; on "-1", "4.0", " 4" and ""
    it fails. *)
Theorem TabWidth_examples :
  parse_value TabWidth "4" = Some 4 /\ parse_value TabWidth "0" = Some 0 /\
  parse_value TabWidth "-1" = None /\ parse_value TabWidth "4.0" = None /\
  parse_value TabWidth " 4" = None /\ parse_value TabWidth "" = None.
Proof. repeat split; reflexivity. Qed.

(** C7: each key is the canonical EditorConfig property name, a non-empty
    string of lowercase letters and underscores. *)
Theorem key_constants :
  key IndentStyle = "indent_style" /\ key IndentSize = "indent_size" /\
  key TabWidth = "tab_width" /\ key EndOfLine = "end_of_line" /\
  key Charset = "charset" /\ key TrimTrailingWs = "trim_trailing_whitespace" /\
  key FinalNewline = "insert_final_newline" /\ key MaxLineLen = "max_line_length" /\
  Forall (fun k => k <> "" /\ lower_snake k = true)
    [key IndentStyle; key IndentSize; key TabWidth; key EndOfLine;
     key Charset; key TrimTrailingWs; key FinalNewline; key MaxLineLen].
Proof.
  repeat split; try reflexivity.
  repeat constructor; discriminate.
Qed.

(** C8: every parse_value is a total function into [option]; it fails
    exactly when the raw string is none of the property's literals or
    sentinel and is not in the grammar of the primitive parse. *)
Theorem parse_value_fails_iff_unrecognized :
  forall s,
  (parse_value IndentStyle s = None <-> ~ In s ["tab"; "space"]) /\
  (parse_value EndOfLine s = None <-> ~ In s ["lf"; "crlf"; "cr"]) /\
  (parse_value Charset s = None <->
     ~ In s ["utf-8"; "latin1"; "utf-16le"; "utf-16be"; "utf-8-bom"]) /\
  (parse_value TabWidth s = None <-> ~ exists n, usize_grammar s n) /\
  (parse_value IndentSize s = None <-> s <> "tab" /\ ~ exists n, usize_grammar s n) /\
  (parse_value MaxLineLen s = None <-> s <> "off" /\ ~ exists n, usize_grammar s n) /\
  (parse_value TrimTrailingWs s = None <-> s <> "true" /\ s <> "false") /\
  (parse_value FinalNewline s = None <-> s <> "true" /\ s <> "false").
Proof.
  intros s.
  assert (Hu : ok (usize_from_str s) = None <-> ~ exists n, usize_grammar s n).
  { split.
    - intros H [n Hn]. apply usize_from_str_spec in Hn. congruence.
    - intros H. destruct (ok (usize_from_str s)) as [n|] eqn:E; [|reflexivity].
      exfalso. apply H. exists n. apply usize_from_str_spec, E. }
  split; [|split; [|split; [|split; [|split; [|split; [|split]]]]]].
  - rewrite IndentStyle_parse_value_eq. apply property_enum_None.
  - rewrite EndOfLine_parse_value_eq. apply property_enum_None.
  - rewrite Charset_parse_value_eq. apply property_enum_None.
  - rewrite TabWidth_parse_value_eq. exact Hu.
  - rewrite IndentSize_parse_value_eq.
    etransitivity; [apply property_basic_option_fail_iff|]. rewrite Hu. reflexivity.
  - rewrite MaxLineLen_parse_value_eq.
    etransitivity; [apply property_basic_option_fail_iff|]. rewrite Hu. reflexivity.
  - rewrite TrimTrailingWs_parse_value_eq. apply bool_parse_none.
  - rewrite FinalNewline_parse_value_eq. apply bool_parse_none.
Qed.

(** C9: a string of digits whose value exceeds usize::MAX is rejected by
    TabWidth, IndentSize and MaxLineLength (no wrap-around). *)
Theorem usize_overflow_rejected (ds : string) :
  all_digits ds = true -> usize_MAX < decimal_value ds ->
  parse_value TabWidth ds = None /\ parse_value IndentSize ds = None /\
  parse_value MaxLineLen ds = None.
Proof.
  intros Hd Hlt.
  pose proof (usize_from_str_overflow ds Hd Hlt) as Hn.
  split; [|split].
  - rewrite TabWidth_parse_value_eq. exact Hn.
  - rewrite IndentSize_parse_value_eq. apply property_basic_option_fail_iff.
    split; [intros ->; discriminate Hd | exact Hn].
  - rewrite MaxLineLen_parse_value_eq. apply property_basic_option_fail_iff.
    split; [intros ->; discriminate Hd | exact Hn].
Qed.

Lemma usize_overflow_rejected_witness :
  all_digits "18446744073709551616" = true /\
  usize_MAX < decimal_value "18446744073709551616" /\
  (parse_value TabWidth "18446744073709551616" = None /\
   parse_value IndentSize "18446744073709551616" = None /\
   parse_value MaxLineLen "18446744073709551616" = None).
Proof.
  assert (Hd : all_digits "18446744073709551616" = true) by reflexivity.
  assert (Hlt : usize_MAX < decimal_value "18446744073709551616") by (vm_compute; reflexivity).
  split; [exact Hd|]. split; [exact Hlt|].
  apply (usize_overflow_rejected "18446744073709551616" Hd Hlt).
Defined.

(** C10: the eight keys are pairwise distinct. *)
Theorem keys_distinct :
  NoDup [key IndentStyle; key IndentSize; key TabWidth; key EndOfLine;
         key Charset; key TrimTrailingWs; key FinalNewline; key MaxLineLen].
Proof. distinct_strings. Qed.

(** ** Further properties of the parsers *)

Lemma decimal_value_from_shift (s : string) :
  forall a, decimal_value_from a s = a * 10 ^ Z.of_nat (String.length s) + decimal_value_from 0 s.
Proof.
  induction s as [|c r IH]; intros a; [simpl; lia|].
  set (d := match to_digit10 c with Some d => d | None => 0 end).
  change (decimal_value_from (a * 10 + d) r =
          a * 10 ^ Z.of_nat (S (String.length r)) + decimal_value_from (0 * 10 + d) r).
  rewrite (IH (a * 10 + d)), (IH (0 * 10 + d)).
  rewrite Nat2Z.inj_succ, Z.pow_succ_r by lia. lia.
Qed.

Lemma decimal_value_snoc (s : string) (c : ascii) (x : Z) :
  to_digit10 c = Some x ->
  forall a, decimal_value_from a (s ++ String c "") = decimal_value_from a s * 10 + x.
Proof.
  intros Hc; induction s as [|c' r IH]; intros a; simpl; [rewrite Hc; reflexivity|].
  apply IH.
Qed.

Lemma all_digits_app (s t : string) :
  all_digits (s ++ t) = all_digits s && all_digits t.
Proof.
  induction s as [|c r IH]; simpl; [reflexivity|].
  destruct (to_digit10 c); [exact IH|reflexivity].
Qed.

Lemma to_digit10_char (m : Z) :
  0 <= m < 10 -> to_digit10 (ascii_of_nat (48 + Z.to_nat m)) = Some m.
Proof.
  intros Hm. unfold to_digit10.
  rewrite nat_ascii_embedding by lia.
  replace ((48 <=? 48 + Z.to_nat m)%nat && (48 + Z.to_nat m <=? 57)%nat) with true.
  - f_equal. lia.
  - symmetry. apply andb_true_iff. split; apply Nat.leb_le; lia.
Qed.

Lemma decimal_string_fuel_spec (fuel : nat) :
  forall n acc, 0 <= n < 2 ^ Z.of_nat fuel -> all_digits acc = true ->
  all_digits (decimal_string_fuel fuel n acc) = true /\
  decimal_value (decimal_string_fuel fuel n acc) =
    n * 10 ^ Z.of_nat (String.length acc) + decimal_value acc.
Proof.
  unfold decimal_value.
  induction fuel as [|f IH]; intros n acc Hn Hacc.
  - change (2 ^ Z.of_nat 0) with 1 in Hn. assert (n = 0) as -> by lia.
    split; [exact Hacc|]. cbn [decimal_string_fuel]. lia.
  - pose proof (Z.mod_pos_bound n 10 ltac:(lia)) as Hm.
    pose proof (Z.div_mod n 10 ltac:(lia)) as Hd.
    pose proof (to_digit10_char (n mod 10) Hm) as Hc.
    cbn [decimal_string_fuel]. cbv zeta.
    set (c := ascii_of_nat (48 + Z.to_nat (n mod 10))) in *.
    assert (Hacc' : all_digits (String c acc) = true)
      by (cbn [all_digits]; rewrite Hc; exact Hacc).
    assert (Hv : decimal_value_from 0 (String c acc) =
                 n mod 10 * 10 ^ Z.of_nat (String.length acc) + decimal_value_from 0 acc).
    { cbn [decimal_value_from]. rewrite Hc, decimal_value_from_shift. lia. }
    destruct (n <? 10) eqn:Elt.
    + apply Z.ltb_lt in Elt. split; [exact Hacc'|].
      rewrite Hv, Z.mod_small by lia. reflexivity.
    + apply Z.ltb_ge in Elt.
      rewrite Nat2Z.inj_succ, Z.pow_succ_r in Hn by lia.
      destruct (IH (n / 10) _ ltac:(lia) Hacc') as [Ha Hval].
      split; [exact Ha|]. rewrite Hval, Hv. cbn [String.length].
      rewrite Nat2Z.inj_succ, Z.pow_succ_r by lia. lia.
Qed.

Lemma decimal_string_fuel_nonempty (fuel : nat) :
  forall n c acc, decimal_string_fuel fuel n (String c acc) <> "".
Proof.
  induction fuel as [|f IH]; intros n c acc; simpl; [discriminate|].
  destruct (n <? 10); [discriminate|apply IH].
Qed.

Lemma decimal_string_spec (n : Z) :
  0 <= n ->
  decimal_string n <> "" /\ all_digits (decimal_string n) = true /\
  decimal_value (decimal_string n) = n.
Proof.
  intros Hn. unfold decimal_string.
  assert (Hb : 0 <= n < 2 ^ Z.of_nat (S (Z.to_nat (Z.log2 n)))).
  { rewrite Nat2Z.inj_succ, Z2Nat.id by apply Z.log2_nonneg.
    destruct (Z.eq_dec n 0) as [->|Hne]; [simpl; lia|].
    pose proof (Z.log2_spec n ltac:(lia)). lia. }
  destruct (decimal_string_fuel_spec _ n "" Hb eq_refl) as [Ha Hv].
  split; [|split; [exact Ha|]].
  - simpl. destruct (n <? 10); [discriminate|apply decimal_string_fuel_nonempty].
  - rewrite Hv. change (n * 10 ^ 0 + 0 = n). lia.
Qed.

Lemma usize_grammar_value (t ds : string) (m : Z) :
  (t = ds \/ t = String "+"%char ds) -> all_digits ds = true ->
  usize_grammar t m -> m = decimal_value ds /\ 0 <= m <= usize_MAX.
Proof.
  intros Ht Hd (ds' & Ht' & Hne & Hd' & Hm & Hle).
  assert (m = decimal_value ds) as Hv.
  { destruct Ht as [->| ->], Ht' as [Ht'|Ht'].
    - subst. reflexivity.
    - subst ds. discriminate Hd.
    - subst ds'. discriminate Hd'.
    - injection Ht' as ->. exact Hm. }
  split; [exact Hv|]. split; [|exact Hle].
  rewrite Hv. apply decimal_value_from_ge. lia.
Qed.

Lemma usize_grammar_nonneg (s : string) (n : Z) : usize_grammar s n -> 0 <= n <= usize_MAX.
Proof.
  intros Hg. pose proof Hg as (ds & Hs & _ & Hd & _).
  exact (proj2 (usize_grammar_value s ds n Hs Hd Hg)).
Qed.

(** On a string whose first byte is not ['+'], [from_str_radix] is the digit
    loop started at 0. *)
Lemma from_str_radix_unsigned_no_plus (max : Z) (c : ascii) (r : string) :
  c <> "+"%char ->
  ok (from_str_radix_unsigned max (String c r)) = ok (digits_loop max 0 (String c r)).
Proof.
  intros Hc. unfold from_str_radix_unsigned. cbv beta iota.
  destruct (Ascii.eqb_spec c "+"%char) as [|_]; [congruence|].
  destruct (Ascii.eqb_spec c "-"%char) as [->|_]; [|reflexivity].
  destruct (String.eqb_spec r "") as [->|_]; reflexivity.
Qed.

(** Extra: a value parsed by TabWidth, or by the integer branch of IndentSize
    or MaxLineLength, lies in [0 ..= usize::MAX]. *)
Theorem usize_parse_in_range (s : string) (n : Z) :
  parse_value TabWidth s = Some n \/ parse_value IndentSize s = Some (Some n) \/
  parse_value MaxLineLen s = Some (Some n) ->
  0 <= n <= usize_MAX.
Proof.
  intros H. apply (usize_grammar_nonneg s), usize_from_str_spec.
  destruct H as [H|[H|H]].
  - exact H.
  - rewrite IndentSize_parse_value_eq in H.
    apply property_basic_option_some_iff in H. exact (proj2 H).
  - rewrite MaxLineLen_parse_value_eq in H.
    apply property_basic_option_some_iff in H. exact (proj2 H).
Qed.

Lemma usize_parse_in_range_witness :
  (parse_value TabWidth "4" = Some 4 \/ parse_value IndentSize "4" = Some (Some 4) \/
   parse_value MaxLineLen "4" = Some (Some 4)) /\ 0 <= 4 <= usize_MAX.
Proof.
  assert (H : parse_value TabWidth "4" = Some 4 \/ parse_value IndentSize "4" = Some (Some 4) \/
              parse_value MaxLineLen "4" = Some (Some 4)) by (left; reflexivity).
  split; [exact H|]. exact (usize_parse_in_range "4" 4 H).
Defined.

(** Extra: every integer in [0 ..= usize::MAX], written in decimal, is parsed
    back to itself by TabWidth, IndentSize and MaxLineLength. *)
Theorem decimal_string_roundtrip (n : Z) :
  0 <= n <= usize_MAX ->
  parse_value TabWidth (decimal_string n) = Some n /\
  parse_value IndentSize (decimal_string n) = Some (Some n) /\
  parse_value MaxLineLen (decimal_string n) = Some (Some n).
Proof.
  intros Hn.
  destruct (decimal_string_spec n ltac:(lia)) as (Hne & Hd & Hv).
  assert (Hok : ok (usize_from_str (decimal_string n)) = Some n).
  { apply usize_from_str_spec. exists (decimal_string n).
    split; [left; reflexivity|]. split; [exact Hne|]. split; [exact Hd|]. lia. }
  split; [|split].
  - rewrite TabWidth_parse_value_eq. exact Hok.
  - rewrite IndentSize_parse_value_eq. apply property_basic_option_some_iff.
    split; [intros E; rewrite E in Hd; discriminate Hd | exact Hok].
  - rewrite MaxLineLen_parse_value_eq. apply property_basic_option_some_iff.
    split; [intros E; rewrite E in Hd; discriminate Hd | exact Hok].
Qed.

Lemma decimal_string_roundtrip_witness :
  0 <= usize_MAX <= usize_MAX /\
  (parse_value TabWidth (decimal_string usize_MAX) = Some usize_MAX /\
   parse_value IndentSize (decimal_string usize_MAX) = Some (Some usize_MAX) /\
   parse_value MaxLineLen (decimal_string usize_MAX) = Some (Some usize_MAX)).
Proof.
  assert (H : 0 <= usize_MAX <= usize_MAX) by (pose proof usize_MAX_nonneg; lia).
  split; [exact H|]. exact (decimal_string_roundtrip usize_MAX H).
Defined.

(** Extra: TabWidth ignores one leading ['+'] in front of a string whose first
    byte is not itself ['+']. *)
Theorem TabWidth_plus_prefix (ds : string) :
  (forall r, ds <> String "+"%char r) ->
  parse_value TabWidth (String "+"%char ds) = parse_value TabWidth ds.
Proof.
  intros Hds. rewrite !TabWidth_parse_value_eq. unfold property_basic, usize_from_str.
  destruct ds as [|c r]; [reflexivity|].
  assert (Hc : c <> "+"%char) by (intros ->; exact (Hds r eq_refl)).
  rewrite (from_str_radix_unsigned_no_plus _ c r Hc). reflexivity.
Qed.

Lemma TabWidth_plus_prefix_witness :
  (forall r, "7" <> String "+"%char r) /\
  parse_value TabWidth (String "+"%char "7") = parse_value TabWidth "7".
Proof.
  assert (H : forall r, "7" <> String "+"%char r) by (intros r E; discriminate E).
  split; [exact H|]. exact (TabWidth_plus_prefix "7" H).
Defined.

(** Extra: a leading ['0'] does not change what TabWidth parses from a
    non-empty string whose first byte is not ['+']. *)
Theorem TabWidth_leading_zero (ds : string) :
  ds <> "" -> (forall r, ds <> String "+"%char r) ->
  parse_value TabWidth (String "0"%char ds) = parse_value TabWidth ds.
Proof.
  intros Hne Hds. rewrite !TabWidth_parse_value_eq. unfold property_basic, usize_from_str.
  destruct ds as [|c r]; [congruence|].
  assert (Hc : c <> "+"%char) by (intros ->; exact (Hds r eq_refl)).
  rewrite (from_str_radix_unsigned_no_plus _ c r Hc).
  rewrite (from_str_radix_unsigned_no_plus _ "0"%char (String c r) ltac:(discriminate)).
  cbn [digits_loop]. replace (to_digit10 "0"%char) with (Some 0) by reflexivity.
  unfold checked_mul, checked_add.
  pose proof usize_MAX_nonneg.
  replace (0 * 10 <=? usize_MAX) with true by (symmetry; apply Z.leb_le; lia).
  replace (0 * 10 + 0 <=? usize_MAX) with true by (symmetry; apply Z.leb_le; lia).
  reflexivity.
Qed.

Lemma TabWidth_leading_zero_witness :
  "42" <> "" /\ (forall r, "42" <> String "+"%char r) /\
  parse_value TabWidth (String "0"%char "42") = parse_value TabWidth "42".
Proof.
  assert (H1 : "42" <> "") by discriminate.
  assert (H2 : forall r, "42" <> String "+"%char r) by (intros r E; discriminate E).
  split; [exact H1|]. split; [exact H2|]. exact (TabWidth_leading_zero "42" H1 H2).
Defined.

(** Extra: TabWidth fails on any string ending in a byte that is not a
    decimal digit (e.g. a trailing space or newline). *)
Theorem TabWidth_rejects_trailing_byte (s : string) (c : ascii) :
  to_digit10 c = None -> parse_value TabWidth (s ++ String c "") = None.
Proof.
  intros Hc. rewrite TabWidth_parse_value_eq. unfold property_basic.
  destruct (ok (usize_from_str (s ++ String c ""))) as [n|] eqn:E; [|reflexivity].
  exfalso. apply usize_from_str_spec in E as (ds & Hs & Hne & Hd & _).
  assert (Hlast : exists p, ds = p ++ String c "").
  { destruct Hs as [<-|Hs]; [exists s; reflexivity|].
    destruct s as [|a p]; simpl in Hs.
    - injection Hs as _ <-. congruence.
    - injection Hs as _ <-. exists p; reflexivity. }
  destruct Hlast as [p ->]. rewrite all_digits_app in Hd.
  apply andb_true_iff in Hd as [_ Hd]. simpl in Hd. rewrite Hc in Hd. discriminate Hd.
Qed.

Lemma TabWidth_rejects_trailing_byte_witness :
  to_digit10 " "%char = None /\ parse_value TabWidth ("4" ++ String " "%char "") = None.
Proof.
  assert (H : to_digit10 " "%char = None) by reflexivity.
  split; [exact H|]. exact (TabWidth_rejects_trailing_byte "4" " "%char H).
Defined.

(** Extra: TabWidth fails on any string starting with a byte that is neither
    a decimal digit nor ['+'] (e.g. a leading space or ['-']). *)
Theorem TabWidth_rejects_leading_byte (s : string) (c : ascii) :
  to_digit10 c = None -> c <> "+"%char -> parse_value TabWidth (String c s) = None.
Proof.
  intros Hd Hc. rewrite TabWidth_parse_value_eq. unfold property_basic, usize_from_str.
  rewrite (from_str_radix_unsigned_no_plus _ c s Hc). cbn [digits_loop]. rewrite Hd.
  reflexivity.
Qed.

Lemma TabWidth_rejects_leading_byte_witness :
  to_digit10 "-"%char = None /\ "-"%char <> "+"%char /\
  parse_value TabWidth (String "-"%char "1") = None.
Proof.
  assert (H1 : to_digit10 "-"%char = None) by reflexivity.
  assert (H2 : "-"%char <> "+"%char) by discriminate.
  split; [exact H1|]. split; [exact H2|]. exact (TabWidth_rejects_leading_byte "1" "-"%char H1 H2).
Defined.

(** Extra: in each enum property every alternative is produced by exactly one
    raw string. *)
Theorem enum_alternative_unique_literal :
  (forall v : IndentStyle, exists! s, parse_value IndentStyle s = Some v) /\
  (forall v : EndOfLine, exists! s, parse_value EndOfLine s = Some v) /\
  (forall v : Charset, exists! s, parse_value Charset s = Some v).
Proof.
  split; [|split]; intros v.
  - destruct v; [exists "tab"|exists "space"]; split; try reflexivity; intros s H;
      rewrite IndentStyle_parse_value_eq, (property_enum_Some _ _ _ IndentStyle_arms_nodup) in H;
      simpl in H; intuition congruence.
  - destruct v; [exists "lf"|exists "crlf"|exists "cr"]; split; try reflexivity; intros s H;
      rewrite EndOfLine_parse_value_eq, (property_enum_Some _ _ _ EndOfLine_arms_nodup) in H;
      simpl in H; intuition congruence.
  - destruct v; [exists "utf-8"|exists "latin1"|exists "utf-16le"|exists "utf-16be"|exists "utf-8-bom"];
      split; try reflexivity; intros s H;
      rewrite Charset_parse_value_eq, (property_enum_Some _ _ _ Charset_arms_nodup) in H;
      simpl in H; intuition congruence.
Qed.

(** Extra: appending a digit [x] to a string that TabWidth parses as [n]
    gives [10 * n + x] when that fits in a usize, and a failure otherwise. *)
Theorem TabWidth_append_digit (s : string) (n : Z) (c : ascii) (x : Z) :
  parse_value TabWidth s = Some n -> to_digit10 c = Some x ->
  parse_value TabWidth (s ++ String c "") =
    if n * 10 + x <=? usize_MAX then Some (n * 10 + x) else None.
Proof.
  intros Hs Hc. rewrite TabWidth_parse_value_eq in *. unfold property_basic in *.
  apply usize_from_str_spec in Hs as Hg.
  destruct Hg as (ds & Hsd & Hne & Hd & Hn & _).
  assert (Hsd' : s ++ String c "" = ds ++ String c "" \/
                 s ++ String c "" = String "+"%char (ds ++ String c "")).
  { destruct Hsd as [-> | ->]; [left|right]; reflexivity. }
  assert (Hd' : all_digits (ds ++ String c "") = true).
  { rewrite all_digits_app, Hd. simpl. rewrite Hc. reflexivity. }
  assert (Hv' : decimal_value (ds ++ String c "") = n * 10 + x).
  { unfold decimal_value. rewrite (decimal_value_snoc ds c x Hc). subst n. reflexivity. }
  destruct (n * 10 + x <=? usize_MAX) eqn:Hle.
  - apply Z.leb_le in Hle. apply usize_from_str_spec.
    exists (ds ++ String c ""). split; [exact Hsd'|].
    split; [destruct ds; discriminate|]. split; [exact Hd'|]. lia.
  - apply Z.leb_gt in Hle.
    destruct (ok (usize_from_str (s ++ String c ""))) as [m|] eqn:E; [|reflexivity].
    apply usize_from_str_spec in E.
    destruct (usize_grammar_value _ _ m Hsd' Hd' E) as [-> Hr]. lia.
Qed.

Lemma TabWidth_append_digit_witness :
  parse_value TabWidth "1844674407370955161" = Some 1844674407370955161 /\
  to_digit10 "6"%char = Some 6 /\
  parse_value TabWidth ("1844674407370955161" ++ String "6"%char "") =
    (if 1844674407370955161 * 10 + 6 <=? usize_MAX then Some (1844674407370955161 * 10 + 6) else None).
Proof.
  assert (H1 : parse_value TabWidth "1844674407370955161" = Some 1844674407370955161)
    by (vm_compute; reflexivity).
  assert (H2 : to_digit10 "6"%char = Some 6) by reflexivity.
  split; [exact H1|]. split; [exact H2|].
  exact (TabWidth_append_digit _ _ _ _ H1 H2).
Defined.
